(** * AMR burden prediction: the scoring and mechanism-aggregation core

    A shallow embedding of the core of [app.py]: the risk classifier
    [risk_category], the mechanism aggregator [compute_sample_mechanisms],
    the rule-based [interpret], and the upload branch of the script
    (required-gene check, projection, scaling, prediction, per-sample
    results).

    Modelling choices.
    - Numbers.  Scores, abundances and proportions are Python/NumPy floats in
      the program.  Every finite float is a rational, and comparisons of
      floats are exact, so scores and proportions that are only compared are
      rationals ([Q]); the literals [3e6], [5e6] and [0.3] are read as the
      rationals they denote.  Sums, quotients and [round(x, 3)] are not exact
      on floats: what the aggregator computes is therefore stated over an
      arbitrary arithmetic ([Arith]), of which the floats are an instance,
      and the aggregator over exact rationals is kept for what does not
      depend on the rounding of these operations (which keys a profile has,
      sums of zeros, the trace of the upload branch).
    - Strings.  A Python [str] is a [string] holding its UTF-8 bytes
      (substring search on UTF-8 bytes and on code points agree).
      [str.lower] is modelled on the ASCII range, which is where the labels
      and the needles of [interpret] have cased letters.
    - Dictionaries.  [mech_scores] and the mechanism profile are
      insertion-ordered ([max] breaks ties by iteration order), so they are
      association lists updated in place or extended at the end.
      [GENE_TO_MECH] is only ever looked up, so it is a [gmap]; the sets of
      the required-gene check are [gset]s.
    - Exceptions are values of [result]; the Streamlit calls the script makes
      and the calls to the frozen scaler and model are recorded as a trace of
      [event]s. *)

From Stdlib Require Import QArith Qround Qabs Lqa Lia String Ascii List.
From stdpp Require Import gmap strings list fin_maps.
Import ListNotations.

Local Open Scope string_scope.
Local Open Scope Q_scope.

(** ** Python values *)

Inductive exn : Set := ValueError | KeyError | TypeError | IndexError.

Inductive result (A : Type) : Type :=
| Ok (a : A)
| Raise (e : exn).
Arguments Ok {A} a.
Arguments Raise {A} e.

Definition rbind {A B : Type} (c : result A) (k : A -> result B) : result B :=
  match c with
  | Ok a => k a
  | Raise e => Raise e
  end.

Notation "'do' x <- c ; k" := (rbind c (fun x => k))
  (at level 10, x name, c at level 100, k at level 200).

(** *** Strings: [str.lower] and [needle in haystack] *)

Definition ascii_lower (c : ascii) : ascii :=
  let n := nat_of_ascii c in
  if ((65 <=? n)%nat && (n <=? 90)%nat)%bool then ascii_of_nat (n + 32) else c.

Fixpoint lower (s : string) : string :=
  match s with
  | EmptyString => EmptyString
  | String c s' => String (ascii_lower c) (lower s')
  end.

(** [contains needle hay] is Python's [needle in hay]. *)
Fixpoint contains (needle hay : string) : bool :=
  if String.prefix needle hay then true
  else match hay with
       | EmptyString => false
       | String _ hay' => contains needle hay'
       end.

(** *** Numbers: [sum] and [round] *)

Definition Qltb (x y : Q) : bool := if Qlt_le_dec x y then true else false.

(** [sum(xs)]: starts from 0 and adds from the left. *)
Definition py_sum (xs : list Q) : Q := fold_left Qplus xs 0.

(** Nearest integer, ties to even. *)
Definition round_half_even (q : Q) : Z :=
  let f := Qfloor q in
  match Qcompare (q - inject_Z f) (1 # 2) with
  | Lt => f
  | Gt => (f + 1)%Z
  | Eq => if Z.even f then f else (f + 1)%Z
  end.

(** [round(x, ndigits)] for [ndigits >= 0]. *)
Definition py_round (x : Q) (ndigits : nat) : Q :=
  let scale := Z.to_pos (10 ^ Z.of_nat ndigits) in
  round_half_even (x * inject_Z (Zpos scale)) # scale.

(** *** Insertion-ordered dictionaries with string keys *)

Definition dict (V : Type) : Type := list (string * V).

Fixpoint dict_get {V : Type} (d : dict V) (k : string) : option V :=
  match d with
  | [] => None
  | (k', v) :: d' => if String.eqb k' k then Some v else dict_get d' k
  end.

(** [d[k] = v]: an existing key keeps its position, a new key goes last. *)
Fixpoint dict_set {V : Type} (d : dict V) (k : string) (v : V) : dict V :=
  match d with
  | [] => [(k, v)]
  | (k', v') :: d' =>
      if String.eqb k' k then (k', v) :: d' else (k', v') :: dict_set d' k v
  end.

Definition dict_keys {V : Type} (d : dict V) : list string := map fst d.
Definition dict_values {V : Type} (d : dict V) : list V := map snd d.

(** [d[k]], raising [KeyError] on a missing key. *)
Definition dict_index {V : Type} (d : dict V) (k : string) : result V :=
  match dict_get d k with
  | Some v => Ok v
  | None => Raise KeyError
  end.

(** The value under a key, 0 when absent: [d.get(k, 0)]. *)
Definition get_or_0 (d : dict Q) (k : string) : Q :=
  match dict_get d k with
  | Some s => s
  | None => 0
  end.

(** [max(xs, key=key)]: [ValueError] on an empty sequence; the running
    maximum is replaced only by a strictly greater key, so the first maximal
    item wins.  A key of [None] cannot be compared ([TypeError]). *)
Fixpoint max_loop {A : Type} (key : A -> option Q) (best : A) (best_key : option Q)
    (rest : list A) : result A :=
  match rest with
  | [] => Ok best
  | x :: rest' =>
      match key x, best_key with
      | Some kx, Some kb =>
          if Qltb kb kx then max_loop key x (Some kx) rest'
          else max_loop key best best_key rest'
      | _, _ => Raise TypeError
      end
  end.

Definition py_max {A : Type} (xs : list A) (key : A -> option Q) : result A :=
  match xs with
  | [] => Raise ValueError
  | x :: rest => max_loop key x (key x) rest
  end.

(** ** Risk classification *)

(** The three strings ["Low"], ["Moderate"], ["High"] returned by
    [risk_category]. *)
Inductive RiskCategory : Set := Low | Moderate | High.

Definition risk_label (c : RiskCategory) : string :=
  match c with
  | Low => "Low"
  | Moderate => "Moderate"
  | High => "High"
  end.

Definition risk_category (score : Q) : RiskCategory :=
  if Qltb score 3e6 then Low
  else if Qltb score 5e6 then Moderate
  else High.

Definition get_risk_color (category : RiskCategory) : string :=
  match category with
  | Low => "risk-low"
  | Moderate => "risk-moderate"
  | High => "risk-high"
  end.

(** ** The interpreter *)

Definition msg_none : string := "No significant resistance mechanisms detected".
Definition msg_multiple : string := "Multiple resistance mechanisms contributing equally".
Definition msg_non_specific : string :=
  "Resistance is dominated by Non-Specific Resistance mechanisms with indirect AMR contribution".
Definition msg_beta_lactamase : string := "β-lactamase–mediated resistance is prominent".
Definition msg_efflux : string := "Efflux-based multidrug resistance likely".
Definition msg_mixed : string := "Mixed resistance mechanisms observed".

Definition interpret (mech_profile : dict Q) : result string :=
  match mech_profile with
  | [] => Ok msg_none
  | _ :: _ =>
      do dominant <- py_max (dict_keys mech_profile) (dict_get mech_profile);
      do dominant_percentage <- dict_index mech_profile dominant;
      if Qltb dominant_percentage 0.3 then Ok msg_multiple
      else
        let dominant_lower := lower dominant in
        if contains "non-specific" dominant_lower then Ok msg_non_specific
        else if (contains "β-lactamase" dominant
                 || contains "beta-lactamase" dominant_lower)%bool
        then Ok msg_beta_lactamase
        else if contains "efflux" dominant_lower then Ok msg_efflux
        else Ok msg_mixed
  end.

(** ** Tables, results and the trace of the upload branch *)

(** A sample row, [sample.items()]: the (gene, abundance) pairs in column
    order. *)
Definition Sample : Type := list (string * Q).

(** A data frame read by [pd.read_csv(..., index_col=0)]: the gene columns
    and, per row, the Sample_ID and the values aligned with the columns. *)
Record DataFrame : Type := {
  columns : list string;
  rows : list (string * list Q)
}.

Definition df_index (df : DataFrame) : list string := map fst (rows df).
Definition df_values (df : DataFrame) : list (list Q) := map snd (rows df).

(** Position of a column label. *)
Fixpoint column_position (g : string) (cols : list string) : option nat :=
  match cols with
  | [] => None
  | c :: cols' =>
      if String.eqb c g then Some O else option_map S (column_position g cols')
  end.

(** [df[genes]]: the listed columns in the listed order; [KeyError] when a
    label is not a column.  Rows have one value per column. *)
Definition df_select (df : DataFrame) (genes : list string) : result DataFrame :=
  match mapM (fun g => column_position g (columns df)) genes with
  | None => Raise KeyError
  | Some positions =>
      Ok {| columns := genes;
            rows := map (fun r => (r.1, map (fun i => nth i r.2 0) positions)) (rows df) |}
  end.

(** [df.loc[sample_id].items()] for a Sample_ID that labels one row.  A
    label shared by several rows selects a frame instead of a row, on which
    the aggregator's [if total > 0] raises [ValueError]. *)
Definition df_loc (df : DataFrame) (sample_id : string) : result Sample :=
  match List.filter (fun r => String.eqb r.1 sample_id) (rows df) with
  | [] => Raise KeyError
  | [r] => Ok (combine (columns df) r.2)
  | _ :: _ :: _ => Raise ValueError
  end.

(** [scores[i]] *)
Definition score_at (scores : list Q) (i : nat) : result Q :=
  match scores !! i with
  | Some s => Ok s
  | None => Raise IndexError
  end.

(** The record built for each sample (the JSON output and a row of
    [all_results]). *)
Record SampleResult : Type := {
  Sample_ID : string;
  AMR_Risk_Score : Q;
  Risk_Category : RiskCategory;
  Resistance_Mechanism_Profile : dict Q;
  Interpretation : string
}.

(** What the upload branch does, in order: the Streamlit output that carries
    data and the calls into the scaler, the model and the aggregator.
    Headings, metrics and charts are left out. *)
Inductive event : Type :=
| st_error_missing (n_missing : nat)
| st_info_first_missing (genes : list string)
| st_write_found (n_found : nat)
| st_write_missing (n_missing : nat)
| st_download_gene_list (genes : list string)
| call_scaler_transform (X : list (list Q))
| call_model_predict (X : list (list Q))
| st_success (n_samples : nat)
| call_compute_sample_mechanisms (sample : Sample)
| st_sample_output (r : SampleResult)
| st_batch_export (all_results : list SampleResult)
| st_error_processing (e : exn).

(** How the script ends: it runs to its end, [st.stop()] halts it, or the
    [except Exception] handler reports an error. *)
Inductive outcome : Set := Completed | Stopped | Failed.

(** A computation of the script: the events it performed and its result. *)
Definition M (A : Type) : Type := list event * result A.

Definition mret {A : Type} (a : A) : M A := ([], Ok a).
Definition emit (e : event) : M unit := ([e], Ok tt).
Definition lift {A : Type} (r : result A) : M A := ([], r).
(** A recorded call. *)
Definition call {A : Type} (e : event) (r : result A) : M A := ([e], r).

Definition mbind {A B : Type} (c : M A) (k : A -> M B) : M B :=
  match c with
  | (trace, Ok a) => let (trace', r) := k a in ((trace ++ trace')%list, r)
  | (trace, Raise e) => (trace, Raise e)
  end.

Notation "'act' x <- c ; k" := (mbind c (fun x => k))
  (at level 10, x name, c at level 100, k at level 200).

(** ** The catalog, the aggregator and the upload branch *)

Section Core.

(** The catalog table after [load_assets]: the columns [AMR_Gene] and
    [Resistance_Mechanism] of [gene_info], row by row.  The file itself is
    an artifact outside the sources, as are the scaler and the model. *)
Variable gene_info : list (string * string).
Variable scaler_transform : list (list Q) -> result (list (list Q)).
Variable model_predict : list (list Q) -> result (list Q).

Definition TOP_GENES : list string := map fst gene_info.

(** [dict(zip(genes, mechanisms))]: a later row overwrites an earlier one
    with the same gene. *)
Definition GENE_TO_MECH : gmap string string :=
  fold_left (fun m gm => <[gm.1 := gm.2]> m) gene_info ∅.

(** [GENE_TO_MECH.get(gene, "Non-Specific Resistance")] *)
Definition mech_of (gene : string) : string :=
  match GENE_TO_MECH !! gene with
  | Some mech => mech
  | None => "Non-Specific Resistance"
  end.

(** The loop of [compute_sample_mechanisms]. *)
Definition accumulate (mech_scores : dict Q) (sample : Sample) : dict Q :=
  fold_left
    (fun scores gv =>
       let mech := mech_of gv.1 in
       dict_set scores mech (get_or_0 scores mech + gv.2))
    sample mech_scores.

Definition compute_sample_mechanisms (sample : Sample) : dict Q :=
  let mech_scores := accumulate [] sample in
  let total := py_sum (dict_values mech_scores) in
  if Qltb 0 total then
    map (fun kv => (kv.1, py_round (kv.2 / total) 3)) mech_scores
  else
    map (fun kv => (kv.1, 0)) mech_scores.

(** One round of either loop over [enumerate(df.index)].  Both loops build
    the same record; the second one calls the aggregator before it reads the
    score. *)
Definition sample_result (df : DataFrame) (scores : list Q) (i : nat)
    (sample_id : string) : M SampleResult :=
  act sample_score <- lift (score_at scores i);
  let risk_cat := risk_category sample_score in
  act sample <- lift (df_loc df sample_id);
  act mech_profile <-
    call (call_compute_sample_mechanisms sample) (Ok (compute_sample_mechanisms sample));
  act interpretation <- lift (interpret mech_profile);
  mret {| Sample_ID := sample_id;
          AMR_Risk_Score := py_round sample_score 3;
          Risk_Category := risk_cat;
          Resistance_Mechanism_Profile := mech_profile;
          Interpretation := interpretation |}.

(** The per-sample display loop. *)
Fixpoint display_loop (df : DataFrame) (scores : list Q) (i : nat)
    (ids : list string) : M unit :=
  match ids with
  | [] => mret tt
  | sample_id :: ids' =>
      act r <- sample_result df scores i sample_id;
      act _ <- emit (st_sample_output r);
      display_loop df scores (S i) ids'
  end.

(** The loop that fills [all_results]. *)
Fixpoint batch_loop (df : DataFrame) (scores : list Q) (i : nat)
    (ids : list string) : M (list SampleResult) :=
  match ids with
  | [] => mret []
  | sample_id :: ids' =>
      act r <- sample_result df scores i sample_id;
      act rs <- batch_loop df scores (S i) ids';
      mret (r :: rs)
  end.

(** The body of the [try] once the required genes are all present. *)
Definition score_samples (df0 : DataFrame) : M unit :=
  act df <- lift (df_select df0 TOP_GENES);
  act X_scaled <- call (call_scaler_transform (df_values df)) (scaler_transform (df_values df));
  act scores <- call (call_model_predict X_scaled) (model_predict X_scaled);
  act _ <- emit (st_success (length (rows df)));
  act _ <- display_loop df scores 0 (df_index df);
  act all_results <- batch_loop df scores 0 (df_index df);
  emit (st_batch_export all_results).

(** [missing = set(TOP_GENES) - set(df.columns)] *)
Definition missing_genes (df : DataFrame) : gset string :=
  list_to_set TOP_GENES ∖ list_to_set (columns df).

(** [set(TOP_GENES) & set(df.columns)] *)
Definition found_genes (df : DataFrame) : gset string :=
  list_to_set TOP_GENES ∩ list_to_set (columns df).

(** The [if uploaded_file:] branch, from the parsed table on.  The first
    five elements of the set [missing] come in the set's iteration order,
    which Python leaves unspecified; here it is the order of [elements]. *)
Definition process_upload (df : DataFrame) : list event * outcome :=
  let missing := missing_genes df in
  if bool_decide (missing = ∅) then
    match score_samples df with
    | (trace, Ok _) => (trace, Completed)
    | (trace, Raise e) => ((trace ++ [st_error_processing e])%list, Failed)
    end
  else
    ([ st_error_missing (size missing);
       st_info_first_missing (take 5 (elements missing));
       st_write_found (size (found_genes df));
       st_write_missing (size missing);
       st_download_gene_list TOP_GENES ],
     Stopped).

End Core.

(** ** The aggregator over the arithmetic of the program *)

(** The numbers of the program with the operations that
    [compute_sample_mechanisms] applies to them: the 0 it starts its sums
    from and returns for a total that is not positive, [+], [/], the test
    [total > 0], the comparison [total == 0] and [round(x, 3)].  Python's
    floats with their IEEE operations are one such arithmetic, the exact
    rationals are another; nothing is assumed of the operations here. *)
Record Arith : Type := {
  f_num : Type;
  f_zero : f_num;
  f_add : f_num -> f_num -> f_num;
  f_div : f_num -> f_num -> f_num;
  f_gt0 : f_num -> bool;
  f_eq0 : f_num -> bool;
  f_round3 : f_num -> f_num
}.

(** [d.get(k, default)] *)
Definition dict_get_or {V : Type} (d : dict V) (k : string) (default : V) : V :=
  match dict_get d k with
  | Some v => v
  | None => default
  end.

(** [sum(xs)] in the arithmetic [A]: from 0, adding from the left. *)
Definition sum_over (A : Arith) (xs : list (f_num A)) : f_num A :=
  fold_left (f_add A) xs (f_zero A).

(** The loop of [compute_sample_mechanisms], in the arithmetic [A]. *)
Definition accumulate_over (A : Arith) (gene_info : list (string * string))
    (mech_scores : dict (f_num A)) (sample : list (string * f_num A)) : dict (f_num A) :=
  fold_left
    (fun scores gv =>
       let mech := mech_of gene_info gv.1 in
       dict_set scores mech (f_add A (dict_get_or scores mech (f_zero A)) gv.2))
    sample mech_scores.

(** [compute_sample_mechanisms] in the arithmetic [A]; at the exact
    rationals it is the function of the same name above. *)
Definition compute_sample_mechanisms_over (A : Arith) (gene_info : list (string * string))
    (sample : list (string * f_num A)) : dict (f_num A) :=
  let mech_scores := accumulate_over A gene_info [] sample in
  let total := sum_over A (dict_values mech_scores) in
  if f_gt0 A total then
    map (fun kv => (kv.1, f_round3 A (f_div A kv.2 total))) mech_scores
  else
    map (fun kv => (kv.1, f_zero A)) mech_scores.

(** The exact rationals as an arithmetic. *)
Definition exact_arith : Arith :=
  {| f_num := Q;
     f_zero := 0;
     f_add := Qplus;
     f_div := Qdiv;
     f_gt0 := Qltb 0;
     f_eq0 := fun x => Qeq_bool x 0;
     f_round3 := fun x => py_round x 3 |}.

(** ** Loading the catalog: label normalization *)

(** The exact replacements of [load_assets]. *)
Definition replace_dict : dict string :=
  [ ("Other / Unclassified", "Non-Specific Resistance");
    ("Other/Unclassified", "Non-Specific Resistance");
    ("Other /Unclassified", "Non-Specific Resistance");
    ("Other/ Unclassified", "Non-Specific Resistance");
    ("general/Unknown", "Non-Specific Resistance");
    ("general / Unknown", "Non-Specific Resistance");
    ("Other", "Non-Specific Resistance");
    ("Unclassified", "Non-Specific Resistance");
    ("Unknown", "Non-Specific Resistance");
    ("Non-specific", "Non-Specific Resistance");
    ("non-specific", "Non-Specific Resistance") ].

(** [Series.replace(table)] on one value: a value equal to a key is replaced,
    any other value is kept. *)
Definition series_replace (table : dict string) (value : string) : string :=
  match dict_get table value with
  | Some replacement => replacement
  | None => value
  end.

(** White space of [str.strip] in the ASCII range: tab to carriage return,
    the four separators 28 to 31, and the space. *)
Definition is_space (c : ascii) : bool :=
  let n := nat_of_ascii c in
  (((9 <=? n)%nat && (n <=? 13)%nat) || ((28 <=? n)%nat && (n <=? 32)%nat))%bool.

Fixpoint lstrip (s : string) : string :=
  match s with
  | EmptyString => EmptyString
  | String c s' => if is_space c then lstrip s' else s
  end.

Fixpoint rstrip (s : string) : string :=
  match s with
  | EmptyString => EmptyString
  | String c s' =>
      match rstrip s' with
      | EmptyString => if is_space c then EmptyString else String c EmptyString
      | t => String c t
      end
  end.

(** [s.strip()] *)
Definition strip (s : string) : string := rstrip (lstrip s).

(** The words that mark a label as non-specific. *)
Definition cleanup_words : list string :=
  ["other"; "unclassified"; "unknown"; "non-specific"; "general"].

Definition final_cleanup (mechanism : string) : string :=
  let mech := strip mechanism in
  if existsb (fun word => contains word (lower mech)) cleanup_words
  then "Non-Specific Resistance"
  else mech.

(** The two passes of [load_assets] over the column [Resistance_Mechanism]
    of the raw catalog table. *)
Definition normalize_gene_info (raw : list (string * string)) : list (string * string) :=
  map (fun gm => (gm.1, final_cleanup (series_replace replace_dict gm.2))) raw.

(** ** The summary metric *)

(** [sum(1 for s in scores if risk_category(s) == "High")] *)
Definition high_risk (scores : list Q) : nat :=
  fold_left Nat.add
    (map (fun _ => 1%nat)
       (List.filter
          (fun s => match risk_category s with High => true | _ => false end)
          scores))
    0%nat.

(** ** Notions used in the statements *)

(** The order Low < Moderate < High. *)
Definition risk_rank (c : RiskCategory) : nat :=
  match c with
  | Low => 0
  | Moderate => 1
  | High => 2
  end.

Definition risk_le (c1 c2 : RiskCategory) : Prop := (risk_rank c1 <= risk_rank c2)%nat.

(** The sum of a list of rationals, as mathematics writes it. *)
Definition Qsum (xs : list Q) : Q := fold_right Qplus 0 xs.

(** Keys in order of first appearance: [see] adds a key unless it is there. *)
Definition see (seen : list string) (k : string) : list string :=
  if existsb (String.eqb k) seen then seen else (seen ++ [k])%list.

Definition first_seen (ks : list string) : list string := fold_left see ks [].

(** [first_max key xs d p]: [d] is the first item of [xs] whose key is the
    maximum [p]: strictly smaller keys before it, none greater after it. *)
Definition first_max {A : Type} (key : A -> option Q) (xs : list A) (d : A) (p : Q) : Prop :=
  key d = Some p /\
  exists before after : list A,
    xs = (before ++ d :: after)%list /\
    (forall x, In x before -> exists v, key x = Some v /\ v < p) /\
    (forall x, In x after -> exists v, key x = Some v /\ v <= p).

(** The label test of the third rule as the code writes it: the Greek
    spelling is searched in the label itself, the Latin one in its
    lower-cased form. *)
Definition beta_lactamase_test (dominant : string) : bool :=
  (contains "β-lactamase" dominant || contains "beta-lactamase" (lower dominant))%bool.

(** The rules applied to the dominant mechanism, in priority order. *)
Definition rule_chain (dominant : string) (dominant_percentage : Q) : string :=
  if Qltb dominant_percentage 0.3 then msg_multiple
  else if contains "non-specific" (lower dominant) then msg_non_specific
  else if beta_lactamase_test dominant then msg_beta_lactamase
  else if contains "efflux" (lower dominant) then msg_efflux
  else msg_mixed.

(** The total abundance of a row. *)
Definition row_total (sample : Sample) : Q := Qsum (map snd sample).

(** Following the specification: the mechanisms of a row, one per gene, in
    column order. *)
Definition row_mechanisms (gene_info : list (string * string)) (sample : Sample) : list string :=
  map (fun gv => mech_of gene_info gv.1) sample.




(** An event is harmless for a property of rows when it is not a call of
    the aggregator, or is one on a row with the property. *)
Definition aggregates_only (P : Sample -> Prop) (e : event) : Prop :=
  match e with
  | call_compute_sample_mechanisms sample => P sample
  | _ => True
  end.

(** An event is a call into the scaler or the model. *)
Definition is_scoring_call (e : event) : Prop :=
  match e with
  | call_scaler_transform _ | call_model_predict _ => True
  | _ => False
  end.

(** A string that does not begin with white space. *)
Definition no_leading_space (s : string) : Prop :=
  match s with
  | EmptyString => True
  | String c _ => is_space c = false
  end.

(** A computation that ended in an exception. *)
Definition is_raise {A : Type} (r : result A) : Prop :=
  match r with
  | Ok _ => False
  | Raise _ => True
  end.

(** An event other than the batch export. *)
Definition no_export (e : event) : Prop :=
  match e with
  | st_batch_export _ => False
  | _ => True
  end.


(** A table with two rows under one Sample_ID. *)
Definition table_with_duplicate_id : DataFrame :=
  {| columns := ["g1"; "g2"]; rows := [("s1", [80; 20]); ("s1", [1; 2])] |}.

(** A scaler that rejects every input. *)
Definition failing_scaler (X : list (list Q)) : result (list (list Q)) := Raise ValueError.

(** ** Concrete catalogs, rows and uploads *)

(** A catalog of two genes, and one of six genes with six mechanisms. *)
Definition catalog2 : list (string * string) :=
  [("g1", "Efflux"); ("g2", "Non-Specific Resistance")].



(** A scaler with mean 0 and scale 1, and a model that adds the features. *)
Definition unit_scaler (X : list (list Q)) : result (list (list Q)) := Ok X.
Definition sum_model (X : list (list Q)) : result (list Q) := Ok (map py_sum X).

(** A table with an extra column, and one that lacks g2. *)
Definition full_table : DataFrame :=
  {| columns := ["g2"; "extra"; "g1"]; rows := [("s1", [20; 7; 80])] |}.

Definition table_without_g2 : DataFrame :=
  {| columns := ["g1"]; rows := [("s1", [80])] |}.

(** * Properties *)

(** ** Comparisons and the risk classifier *)

Lemma Qltb_lt (x y : Q) : Qltb x y = true <-> x < y.
Proof.
  unfold Qltb. destruct (Qlt_le_dec x y) as [Hlt | Hle]; split; intros H;
    try reflexivity; try assumption; try discriminate.
  exfalso. apply (Qlt_not_le _ _ H Hle).
Qed.

Lemma Qltb_ge (x y : Q) : Qltb x y = false <-> y <= x.
Proof.
  unfold Qltb. destruct (Qlt_le_dec x y) as [Hlt | Hle]; split; intros H;
    try reflexivity; try assumption; try discriminate.
  exfalso. apply (Qlt_not_le _ _ Hlt H).
Qed.

Lemma threshold_low : 3e6 == 3000000.
Proof. reflexivity. Qed.

Lemma threshold_high : 5e6 == 5000000.
Proof. reflexivity. Qed.

Lemma threshold_dominant : 0.3 == 3 # 10.
Proof. reflexivity. Qed.

Ltac risk_cases :=
  unfold risk_category;
  pose proof threshold_low; pose proof threshold_high;
  destruct (Qltb _ 3e6) eqn:?; [| destruct (Qltb _ 5e6) eqn:?];
  rewrite ?Qltb_lt, ?Qltb_ge in *.

Lemma risk_category_Low (s : Q) : risk_category s = Low <-> s < 3000000.
Proof.
  risk_cases; split; intros Hs;
    first [discriminate | reflexivity | lra | exfalso; lra].
Qed.

Lemma risk_category_Moderate (s : Q) :
  risk_category s = Moderate <-> 3000000 <= s /\ s < 5000000.
Proof.
  risk_cases; split; intros Hs;
    first [discriminate | reflexivity | split; lra | destruct Hs; exfalso; lra].
Qed.

Lemma risk_category_High (s : Q) : risk_category s = High <-> 5000000 <= s.
Proof.
  risk_cases; split; intros Hs;
    first [discriminate | reflexivity | lra | exfalso; lra].
Qed.

(** C1. The classifier returns Low below 3,000,000, Moderate from 3,000,000
    (included) up to 5,000,000 (excluded) and High from 5,000,000 on; at
    exactly 3,000,000 it returns Moderate and at exactly 5,000,000 High. *)
Theorem risk_category_thresholds (s : Q) :
  (s < 3000000 -> risk_category s = Low) /\
  (3000000 <= s /\ s < 5000000 -> risk_category s = Moderate) /\
  (5000000 <= s -> risk_category s = High) /\
  risk_category 3000000 = Moderate /\
  risk_category 5000000 = High.
Proof.
  repeat split.
  - apply risk_category_Low.
  - apply risk_category_Moderate.
  - apply risk_category_High.
Qed.

Lemma risk_category_thresholds_witness :
  risk_category 2999999.5 = Low /\
  risk_category 4999999.5 = Moderate /\
  risk_category 7e6 = High.
Proof.
  destruct (risk_category_thresholds 2999999.5) as [HL _].
  destruct (risk_category_thresholds 4999999.5) as [_ [HM _]].
  destruct (risk_category_thresholds 7e6) as [_ [_ [HH _]]].
  split; [apply HL; reflexivity |].
  split; [apply HM; split; [discriminate | reflexivity] |].
  apply HH. discriminate.
Defined.

(** C8. The classifier is monotone for Low < Moderate < High, and the three
    bands cover every score exactly once. *)
Theorem risk_category_monotone_partition :
  (forall s1 s2 : Q, s1 <= s2 -> risk_le (risk_category s1) (risk_category s2)) /\
  (forall s : Q,
      (risk_category s = Low <-> s < 3000000) /\
      (risk_category s = Moderate <-> 3000000 <= s /\ s < 5000000) /\
      (risk_category s = High <-> 5000000 <= s)) /\
  (forall s : Q,
      (s < 3000000 /\ ~ (3000000 <= s /\ s < 5000000) /\ ~ 5000000 <= s) \/
      (~ s < 3000000 /\ (3000000 <= s /\ s < 5000000) /\ ~ 5000000 <= s) \/
      (~ s < 3000000 /\ ~ (3000000 <= s /\ s < 5000000) /\ 5000000 <= s)).
Proof.
  split; [| split].
  - intros s1 s2 Hle. unfold risk_le.
    destruct (risk_category s1) eqn:E1; destruct (risk_category s2) eqn:E2;
      simpl; try lia; exfalso;
      rewrite ?risk_category_Low, ?risk_category_Moderate, ?risk_category_High in *;
      lra.
  - intros s. split; [apply risk_category_Low |].
    split; [apply risk_category_Moderate | apply risk_category_High].
  - intros s. lra.
Qed.

Lemma risk_category_monotone_partition_witness :
  risk_le (risk_category 2999999) (risk_category 3000000) /\
  risk_le (risk_category 3000000) (risk_category 5000000).
Proof.
  destruct risk_category_monotone_partition as [Hmono _].
  split; apply Hmono; discriminate.
Defined.

(** ** Dictionaries and [max] *)

Lemma dict_get_keys {V : Type} (d : dict V) (k : string) :
  In k (dict_keys d) -> exists v, dict_get d k = Some v.
Proof.
  induction d as [| [k' v'] d IH]; simpl; intros Hin; [contradiction |].
  destruct (String.eqb k' k) eqn:E; [eauto |].
  destruct Hin as [-> | Hin]; [| auto].
  rewrite String.eqb_refl in E. discriminate.
Qed.

Lemma dict_get_Some_keys {V : Type} (d : dict V) (k : string) (v : V) :
  dict_get d k = Some v -> In k (dict_keys d).
Proof.
  induction d as [| [k' v'] d IH]; simpl; [discriminate |].
  destruct (String.eqb k' k) eqn:E; intros H.
  - left. apply String.eqb_eq. exact E.
  - right. auto.
Qed.

Lemma max_loop_first_max {A : Type} (key : A -> option Q) (rest : list A) :
  forall (before : list A) (best : A) (kb : Q) (tied : list A),
    key best = Some kb ->
    (forall x, In x rest -> exists v, key x = Some v) ->
    (forall x, In x before -> exists v, key x = Some v /\ v < kb) ->
    (forall x, In x tied -> exists v, key x = Some v /\ v <= kb) ->
    exists d p,
      max_loop key best (Some kb) rest = Ok d /\
      first_max key (before ++ best :: tied ++ rest)%list d p.
Proof.
  induction rest as [| x rest IH]; intros before best kb tied Hbest Hrest Hbefore Htied.
  - exists best, kb. split; [reflexivity |]. split; [exact Hbest |].
    exists before, tied. rewrite app_nil_r. auto.
  - destruct (Hrest x (or_introl eq_refl)) as [kx Hkx].
    simpl. rewrite Hkx.
    destruct (Qltb kb kx) eqn:Hcmp.
    + apply Qltb_lt in Hcmp.
      destruct (IH (before ++ best :: tied)%list x kx [] Hkx) as (d & p & Hrun & Hfm).
      * intros y Hy. apply Hrest. right. exact Hy.
      * intros y Hy. apply in_app_or in Hy. destruct Hy as [Hy | [<- | Hy]].
        -- destruct (Hbefore y Hy) as (v & Hv & Hlt). exists v. split; [exact Hv | lra].
        -- exists kb. auto.
        -- destruct (Htied y Hy) as (v & Hv & Hle). exists v. split; [exact Hv | lra].
      * intros y [].
      * exists d, p. split; [exact Hrun |].
        simpl in Hfm. rewrite <- app_assoc in Hfm. exact Hfm.
    + apply Qltb_ge in Hcmp.
      destruct (IH before best kb (tied ++ [x])%list Hbest) as (d & p & Hrun & Hfm).
      * intros y Hy. apply Hrest. right. exact Hy.
      * exact Hbefore.
      * intros y Hy. apply in_app_or in Hy. destruct Hy as [Hy | [<- | []]].
        -- apply Htied. exact Hy.
        -- exists kx. auto.
      * exists d, p. split; [exact Hrun |].
        rewrite <- app_assoc in Hfm. exact Hfm.
Qed.

Lemma py_max_keys (mech_profile : dict Q) :
  mech_profile <> [] ->
  exists d p,
    py_max (dict_keys mech_profile) (dict_get mech_profile) = Ok d /\
    first_max (dict_get mech_profile) (dict_keys mech_profile) d p.
Proof.
  intros Hne.
  destruct (dict_keys mech_profile) as [| k0 ks] eqn:Hkeys.
  { destruct mech_profile; [contradiction | discriminate]. }
  assert (Hall : forall x, In x (k0 :: ks) -> exists v, dict_get mech_profile x = Some v).
  { intros x Hx. apply dict_get_keys. rewrite Hkeys. exact Hx. }
  destruct (Hall k0 (or_introl eq_refl)) as [v0 Hv0].
  destruct (max_loop_first_max (dict_get mech_profile) ks [] k0 v0 [] Hv0)
    as (d & p & Hrun & Hfm).
  - intros x Hx. apply Hall. right. exact Hx.
  - intros x [].
  - intros x [].
  - exists d, p. split; [| exact Hfm]. simpl. rewrite Hv0. exact Hrun.
Qed.

(** ** The interpreter *)

Lemma interpret_nonempty (mech_profile : dict Q) :
  mech_profile <> [] ->
  exists dominant p,
    first_max (dict_get mech_profile) (dict_keys mech_profile) dominant p /\
    interpret mech_profile = Ok (rule_chain dominant p).
Proof.
  intros Hne.
  destruct (py_max_keys mech_profile Hne) as (d & p & Hmax & Hfm).
  exists d, p. split; [exact Hfm |].
  destruct mech_profile as [| kv rest]; [contradiction |].
  unfold interpret. rewrite Hmax. simpl rbind.
  unfold dict_index. destruct Hfm as [Hp _]. rewrite Hp. simpl rbind.
  unfold rule_chain, beta_lactamase_test.
  destruct (Qltb p 0.3); [reflexivity |].
  destruct (contains "non-specific" (lower d)); [reflexivity |].
  destruct (contains "β-lactamase" d || contains "beta-lactamase" (lower d))%bool;
    [reflexivity |].
  destruct (contains "efflux" (lower d)); reflexivity.
Qed.

(** C3. On a non-empty profile the dominant mechanism is the first one, in
    iteration order, that attains the maximum proportion, and the rules are
    tried in priority order: below 0.30 the "contributing equally" message
    whatever the label, then the non-specific, the β-lactamase and the efflux
    label tests, then the "mixed" message; a rule is reached only when every
    earlier one failed.  The empty profile gets its own message first. *)
Theorem interpret_priority_order (mech_profile : dict Q) :
  (mech_profile = [] -> interpret mech_profile = Ok msg_none) /\
  (mech_profile <> [] ->
   exists dominant p,
     first_max (dict_get mech_profile) (dict_keys mech_profile) dominant p /\
     (p < 3 # 10 -> interpret mech_profile = Ok msg_multiple) /\
     (3 # 10 <= p ->
      (contains "non-specific" (lower dominant) = true ->
       interpret mech_profile = Ok msg_non_specific) /\
      (contains "non-specific" (lower dominant) = false ->
       (beta_lactamase_test dominant = true ->
        interpret mech_profile = Ok msg_beta_lactamase) /\
       (beta_lactamase_test dominant = false ->
        (contains "efflux" (lower dominant) = true ->
         interpret mech_profile = Ok msg_efflux) /\
        (contains "efflux" (lower dominant) = false ->
         interpret mech_profile = Ok msg_mixed))))).
Proof.
  split; [intros ->; reflexivity |].
  intros Hne.
  destruct (interpret_nonempty mech_profile Hne) as (d & p & Hfm & Hrun).
  exists d, p. split; [exact Hfm |].
  rewrite Hrun. unfold rule_chain.
  pose proof threshold_dominant as H03.
  split.
  - intros Hlt. assert (Hb : Qltb p 0.3 = true) by (apply Qltb_lt; lra).
    rewrite Hb. reflexivity.
  - intros Hge. assert (Hb : Qltb p 0.3 = false) by (apply Qltb_ge; lra).
    rewrite Hb. split; [intros -> ; reflexivity |].
    intros ->. split; [intros -> ; reflexivity |].
    intros ->. split; intros ->; reflexivity.
Qed.

Lemma interpret_priority_order_witness :
  exists dominant p,
    first_max (dict_get [("Efflux", 1 # 2); ("Non-Specific Resistance", 1 # 2)])
      ["Efflux"; "Non-Specific Resistance"] dominant p.
Proof.
  destruct (interpret_priority_order [("Efflux", 1 # 2); ("Non-Specific Resistance", 1 # 2)])
    as [_ H].
  destruct H as (d & p & Hfm & _); [discriminate |].
  exists d, p. exact Hfm.
Defined.

(** C9. [interpret] never raises, and its result is one of six fixed
    strings. *)
Theorem interpret_total (mech_profile : dict Q) :
  exists s,
    interpret mech_profile = Ok s /\
    In s [ "No significant resistance mechanisms detected";
           "Multiple resistance mechanisms contributing equally";
           "Resistance is dominated by Non-Specific Resistance mechanisms with indirect AMR contribution";
           "β-lactamase–mediated resistance is prominent";
           "Efflux-based multidrug resistance likely";
           "Mixed resistance mechanisms observed" ].
Proof.
  destruct mech_profile as [| kv rest] eqn:E.
  - exists msg_none. split; [reflexivity | simpl; auto].
  - rewrite <- E.
    destruct (interpret_nonempty mech_profile) as (d & p & _ & Hrun);
      [rewrite E; discriminate |].
    exists (rule_chain d p). split; [exact Hrun |].
    unfold rule_chain.
    destruct (Qltb p 0.3); [simpl; auto |].
    destruct (contains "non-specific" (lower d)); [simpl; auto |].
    destruct (beta_lactamase_test d); [simpl; auto |].
    destruct (contains "efflux" (lower d)); simpl; auto 7.
Qed.

(** C5. A label that spells the Greek form with a capital letter is dominant
    with proportion 1, contains "β-lactamase" once lower-cased and has no
    "non-specific" in it, yet [interpret] answers with the "mixed" message:
    the Greek spelling is searched in the label as written. *)
Theorem interpret_beta_lactamase_case_sensitive :
  contains "β-lactamase" (lower "β-Lactamase") = true /\
  contains "non-specific" (lower "β-Lactamase") = false /\
  interpret [("β-Lactamase", 1)] = Ok msg_mixed /\
  interpret [("β-lactamase", 1)] = Ok msg_beta_lactamase /\
  interpret [("Beta-Lactamase", 1)] = Ok msg_beta_lactamase.
Proof. repeat split; reflexivity. Qed.

(** ** Sums and rounding *)

Lemma fold_left_Qplus (xs : list Q) (a : Q) : fold_left Qplus xs a == a + Qsum xs.
Proof.
  revert a. induction xs as [| x xs IH]; intros a; simpl.
  - ring.
  - rewrite IH. ring.
Qed.

Lemma py_sum_Qsum (xs : list Q) : py_sum xs == Qsum xs.
Proof. unfold py_sum. rewrite fold_left_Qplus. ring. Qed.

(** ** Updating a dictionary *)



Lemma dict_keys_set {V : Type} (d : dict V) (k : string) (v : V) :
  dict_keys (dict_set d k v) = see (dict_keys d) k.
Proof.
  unfold see. induction d as [| [k0 v0] d IH]; simpl; [reflexivity |].
  rewrite (String.eqb_sym k k0).
  destruct (String.eqb k0 k); simpl; [reflexivity |].
  rewrite IH. destruct (existsb (String.eqb k) (dict_keys d)); reflexivity.
Qed.


Lemma dict_get_map {V W : Type} (f : V -> W) (d : dict V) (k : string) :
  dict_get (map (fun kv => (kv.1, f kv.2)) d) k = option_map f (dict_get d k).
Proof.
  induction d as [| [k0 v0] d IH]; simpl; [reflexivity |].
  destruct (String.eqb k0 k); [reflexivity | exact IH].
Qed.

Lemma dict_keys_map {V W : Type} (f : string * V -> W) (d : dict V) :
  dict_keys (map (fun kv => (kv.1, f kv)) d) = dict_keys d.
Proof.
  unfold dict_keys. rewrite map_map. apply map_ext. reflexivity.
Qed.

(** ** The mechanism aggregator *)

Section Aggregator.

Variable gene_info : list (string * string).

Lemma accumulate_cons (scores : dict Q) (gv : string * Q) (sample : Sample) :
  accumulate gene_info scores (gv :: sample) =
  accumulate gene_info
    (dict_set scores (mech_of gene_info gv.1)
       (get_or_0 scores (mech_of gene_info gv.1) + gv.2))
    sample.
Proof. reflexivity. Qed.

Lemma accumulate_keys (sample : Sample) :
  forall scores : dict Q,
    dict_keys (accumulate gene_info scores sample) =
    fold_left see (row_mechanisms gene_info sample) (dict_keys scores).
Proof.
  induction sample as [| gv sample IH]; intros scores; [reflexivity |].
  rewrite accumulate_cons, IH, dict_keys_set. reflexivity.
Qed.


Lemma accumulate_keys_nil (sample : Sample) :
  dict_keys (accumulate gene_info [] sample) = first_seen (row_mechanisms gene_info sample).
Proof. apply accumulate_keys. Qed.

Lemma dict_set_add_total (d : dict Q) (k : string) (v : Q) :
  Qsum (dict_values (dict_set d k (get_or_0 d k + v))) == Qsum (dict_values d) + v.
Proof.
  unfold get_or_0. induction d as [| [k0 v0] d IH]; simpl.
  - ring.
  - destruct (String.eqb k0 k); simpl; [ring |]. rewrite IH. ring.
Qed.

Lemma accumulate_row_total (sample : Sample) :
  forall scores : dict Q,
    Qsum (dict_values (accumulate gene_info scores sample)) ==
    Qsum (dict_values scores) + row_total sample.
Proof.
  unfold row_total.
  induction sample as [| [g v] sample IH]; intros scores.
  - simpl. ring.
  - rewrite accumulate_cons, IH, dict_set_add_total. simpl. ring.
Qed.

(** The total the code computes is the total abundance of the row. *)
Lemma code_total_row_total (sample : Sample) :
  py_sum (dict_values (accumulate gene_info [] sample)) == row_total sample.
Proof. rewrite py_sum_Qsum, accumulate_row_total. simpl. ring. Qed.

Lemma dict_set_nonempty {V : Type} (d : dict V) (k : string) (v : V) :
  dict_set d k v <> [].
Proof. destruct d as [| [k0 v0] d]; simpl; [| destruct (String.eqb k0 k)]; discriminate. Qed.

Lemma accumulate_nonempty (sample : Sample) :
  forall scores : dict Q,
    scores <> [] \/ sample <> [] -> accumulate gene_info scores sample <> [].
Proof.
  induction sample as [| gv sample IH]; intros scores H.
  - destruct H as [H | H]; [exact H | contradiction].
  - rewrite accumulate_cons. apply IH. left. apply dict_set_nonempty.
Qed.

(** The two branches of [compute_sample_mechanisms]. *)
Lemma compute_sample_mechanisms_pos (sample : Sample) :
  0 < row_total sample ->
  compute_sample_mechanisms gene_info sample =
  map (fun kv => (kv.1, py_round (kv.2 / py_sum (dict_values (accumulate gene_info [] sample))) 3))
    (accumulate gene_info [] sample).
Proof.
  intros Hpos. unfold compute_sample_mechanisms.
  assert (Hb : Qltb 0 (py_sum (dict_values (accumulate gene_info [] sample))) = true).
  { apply Qltb_lt. rewrite code_total_row_total. exact Hpos. }
  rewrite Hb. reflexivity.
Qed.

Lemma compute_sample_mechanisms_nonpos (sample : Sample) :
  row_total sample <= 0 ->
  compute_sample_mechanisms gene_info sample =
  map (fun kv => (kv.1, 0)) (accumulate gene_info [] sample).
Proof.
  intros Hle. unfold compute_sample_mechanisms.
  assert (Hb : Qltb 0 (py_sum (dict_values (accumulate gene_info [] sample))) = false).
  { apply Qltb_ge. rewrite code_total_row_total. exact Hle. }
  rewrite Hb. reflexivity.
Qed.

Lemma compute_sample_mechanisms_keys (sample : Sample) :
  dict_keys (compute_sample_mechanisms gene_info sample) = first_seen (row_mechanisms gene_info sample).
Proof.
  rewrite <- accumulate_keys_nil. unfold compute_sample_mechanisms.
  destruct (Qltb 0 _).
  - apply (dict_keys_map (fun kv => py_round (kv.2 / _) 3)).
  - apply (dict_keys_map (fun _ => 0)).
Qed.

(** C4 (amended). For a row whose abundances are all zero the profile maps
    every mechanism of the row to 0; on that profile [interpret] returns the
    "contributing equally" message when the row has at least one gene, and
    the "no significant resistance" message only when the row is empty. *)
Theorem all_zero_row_interpretation (sample : Sample) :
  (forall g v, In (g, v) sample -> v == 0) ->
  (forall mech,
      In mech (first_seen (row_mechanisms gene_info sample)) ->
      dict_get (compute_sample_mechanisms gene_info sample) mech = Some 0) /\
  (sample <> [] ->
   interpret (compute_sample_mechanisms gene_info sample) = Ok msg_multiple) /\
  (sample = [] ->
   interpret (compute_sample_mechanisms gene_info sample) = Ok msg_none).
Proof.
  intros Hzero.
  assert (Htotal : row_total sample <= 0).
  { unfold row_total. clear -Hzero.
    induction sample as [| [g v] sample IH]; simpl; [lra |].
    rewrite (Hzero g v (or_introl eq_refl)).
    assert (Qsum (map snd sample) <= 0); [| lra].
    apply IH. intros g' v' H. apply (Hzero g' v'). right. exact H. }
  assert (Hget : forall mech,
             In mech (dict_keys (compute_sample_mechanisms gene_info sample)) ->
             dict_get (compute_sample_mechanisms gene_info sample) mech = Some 0).
  { intros mech Hin. rewrite compute_sample_mechanisms_keys, <- accumulate_keys_nil in Hin.
    destruct (dict_get_keys _ _ Hin) as [s Hs].
    rewrite (compute_sample_mechanisms_nonpos _ Htotal).
    rewrite (dict_get_map (fun _ => 0)), Hs. reflexivity. }
  split; [| split].
  - intros mech Hin. apply Hget. rewrite compute_sample_mechanisms_keys. exact Hin.
  - intros Hne.
    destruct (interpret_nonempty (compute_sample_mechanisms gene_info sample))
      as (d & p & Hfm & Hrun).
    { rewrite (compute_sample_mechanisms_nonpos _ Htotal).
      intros Hnil. apply map_eq_nil in Hnil.
      revert Hnil. apply accumulate_nonempty. right. exact Hne. }
    rewrite Hrun. destruct Hfm as [Hp _].
    rewrite (Hget d (dict_get_Some_keys _ _ _ Hp)) in Hp.
    injection Hp as <-. reflexivity.
  - intros ->. reflexivity.
Qed.

End Aggregator.

(** ** The aggregator in any arithmetic *)


(** At the exact rationals the generic aggregator is the aggregator above. *)
Lemma compute_sample_mechanisms_exact (gene_info : list (string * string)) (sample : Sample) :
  compute_sample_mechanisms gene_info sample =
  compute_sample_mechanisms_over exact_arith gene_info sample.
Proof. reflexivity. Qed.

Section AggregatorOver.

Variable A : Arith.
Variable gene_info : list (string * string).











End AggregatorOver.


(** *** Concrete rows *)




Lemma all_zero_row_interpretation_witness :
  interpret (compute_sample_mechanisms catalog2 [("g1", 0); ("g2", 0)]) = Ok msg_multiple.
Proof.
  destruct (all_zero_row_interpretation catalog2 [("g1", 0); ("g2", 0)]) as (_ & H & _).
  - intros g v [E | [E | []]]; injection E as _ <-; reflexivity.
  - apply H. discriminate.
Defined.

(** An all-zero row with a gene in it does not get the "no significant
    resistance" message. *)
Lemma all_zero_row_not_msg_none :
  (forall g v, In (g, v) [("g1", 0); ("g2", 0)] -> v == 0) /\
  compute_sample_mechanisms catalog2 [("g1", 0); ("g2", 0)] =
    [("Efflux", 0); ("Non-Specific Resistance", 0)] /\
  interpret (compute_sample_mechanisms catalog2 [("g1", 0); ("g2", 0)]) <> Ok msg_none.
Proof.
  split; [| split].
  - intros g v [E | [E | []]]; injection E as _ <-; reflexivity.
  - vm_compute. reflexivity.
  - vm_compute. discriminate.
Qed.

(** ** The upload branch *)

Lemma mbind_trace_Forall {A B : Type} (P : event -> Prop) (c : M A) (k : A -> M B) :
  Forall P c.1 ->
  (forall a, c.2 = Ok a -> Forall P (k a).1) ->
  Forall P (mbind c k).1.
Proof.
  destruct c as [trace [a | e]]; simpl; intros Hc Hk; [| exact Hc].
  specialize (Hk a eq_refl). destruct (k a) as [trace' r]. simpl in *.
  apply Forall_app. split; assumption.
Qed.

Lemma column_position_Some (g : string) (cols : list string) :
  In g cols -> exists i, column_position g cols = Some i.
Proof.
  induction cols as [| c cols IH]; simpl; [contradiction |].
  intros Hin. destruct (String.eqb c g) eqn:E; [eauto |].
  destruct Hin as [-> | Hin]; [rewrite String.eqb_refl in E; discriminate |].
  destruct (IH Hin) as [i ->]. simpl. eauto.
Qed.

Lemma column_position_In (g : string) (cols : list string) (i : nat) :
  column_position g cols = Some i -> In g cols.
Proof.
  revert i. induction cols as [| c cols IH]; simpl; intros i; [discriminate |].
  destruct (String.eqb c g) eqn:E.
  - intros _. left. apply String.eqb_eq. exact E.
  - destruct (column_position g cols) as [j |]; [| discriminate].
    intros _. right. apply (IH j). reflexivity.
Qed.

Section Pipeline.

Variable gene_info : list (string * string).
Variable scaler_transform : list (list Q) -> result (list (list Q)).
Variable model_predict : list (list Q) -> result (list Q).

Lemma fold_insert_lookup (l : list (string * string)) :
  forall (m : gmap string string) (g : string),
    is_Some (m !! g) \/ In g (map fst l) ->
    is_Some (fold_left (fun m gm => <[gm.1 := gm.2]> m) l m !! g).
Proof.
  induction l as [| [g0 m0] l IH]; intros m g H; simpl.
  - destruct H as [H | []]. exact H.
  - apply IH. simpl in H.
    destruct (decide (g0 = g)) as [-> | Hne].
    + left. rewrite lookup_insert_eq. eauto.
    + rewrite lookup_insert_ne by exact Hne.
      destruct H as [H | [H | H]]; [left; exact H | contradiction | right; exact H].
Qed.

(** Every required gene has an entry in [GENE_TO_MECH]. *)
Lemma GENE_TO_MECH_TOP_GENES (g : string) :
  In g (TOP_GENES gene_info) -> is_Some (GENE_TO_MECH gene_info !! g).
Proof. intros H. apply fold_insert_lookup. right. exact H. Qed.

Lemma missing_genes_empty (df : DataFrame) :
  missing_genes gene_info df = ∅ <->
  (forall g, In g (TOP_GENES gene_info) -> In g (columns df)).
Proof.
  unfold missing_genes. split.
  - intros H g Hg. apply list_elem_of_In. apply list_elem_of_In in Hg.
    destruct (decide (g ∈ columns df)) as [Hin | Hnin]; [exact Hin |].
    exfalso. assert (Hm : g ∈ (∅ : gset string)).
    { rewrite <- H. apply elem_of_difference.
      rewrite !elem_of_list_to_set. split; assumption. }
    revert Hm. apply not_elem_of_empty.
  - intros H. apply set_eq. intros g.
    split; [| intros Hg; exfalso; revert Hg; apply not_elem_of_empty].
    rewrite elem_of_difference, !elem_of_list_to_set.
    intros [Hg Hn]. exfalso. apply Hn.
    apply list_elem_of_In, H, list_elem_of_In, Hg.
Qed.

Lemma missing_genes_spec (df : DataFrame) (g : string) :
  g ∈ missing_genes gene_info df <-> In g (TOP_GENES gene_info) /\ ~ In g (columns df).
Proof.
  unfold missing_genes.
  rewrite elem_of_difference, !elem_of_list_to_set, !list_elem_of_In. reflexivity.
Qed.

Lemma found_genes_spec (df : DataFrame) (g : string) :
  g ∈ found_genes gene_info df <-> In g (TOP_GENES gene_info) /\ In g (columns df).
Proof.
  unfold found_genes.
  rewrite elem_of_intersection, !elem_of_list_to_set, !list_elem_of_In. reflexivity.
Qed.

Lemma df_select_Ok (df0 df : DataFrame) (genes : list string) :
  df_select df0 genes = Ok df ->
  columns df = genes /\
  df_index df = df_index df0 /\
  Forall (fun r => length r.2 = length genes) (rows df).
Proof.
  unfold df_select.
  destruct (mapM (fun g => column_position g (columns df0)) genes)
    as [positions |] eqn:Hpos; [| discriminate].
  intros H. injection H as <-. simpl. split; [reflexivity |]. split.
  - unfold df_index. simpl. rewrite map_map. reflexivity.
  - apply Forall_forall. intros r Hr. apply list_elem_of_In, in_map_iff in Hr.
    destruct Hr as (r0 & <- & _). simpl. rewrite length_map.
    apply length_mapM in Hpos. symmetry. exact Hpos.
Qed.

Lemma df_select_succeeds (df0 : DataFrame) (genes : list string) :
  (forall g, In g genes -> In g (columns df0)) ->
  exists df, df_select df0 genes = Ok df.
Proof.
  intros Hall. unfold df_select.
  assert (Hs : is_Some (mapM (fun g => column_position g (columns df0)) genes)).
  { apply mapM_is_Some, Forall_forall. intros g Hg. apply list_elem_of_In in Hg.
    destruct (column_position_Some g (columns df0) (Hall g Hg)) as [i Hi].
    simpl. rewrite Hi. eauto. }
  destruct Hs as [positions ->]. eauto.
Qed.

Lemma mbind_lift_Ok {A B : Type} (a : A) (k : A -> M B) : mbind (lift (Ok a)) k = k a.
Proof. unfold mbind, lift. destruct (k a). reflexivity. Qed.

Lemma mbind_call_head {A B : Type} (ev : event) (r : result A) (k : A -> M B) :
  exists rest out, mbind (call ev r) k = (ev :: rest, out).
Proof.
  unfold mbind, call. destruct r as [a | e]; [| eauto].
  destruct (k a) as [trace' out]. simpl. eauto.
Qed.

(** The rows handed to the aggregator are rows of the projected table. *)
Lemma df_loc_columns (df : DataFrame) (sample_id : string) (sample : Sample) :
  Forall (fun r => length r.2 = length (columns df)) (rows df) ->
  df_loc df sample_id = Ok sample ->
  map fst sample = columns df.
Proof.
  intros Hrect. unfold df_loc.
  destruct (List.filter (fun r => String.eqb r.1 sample_id) (rows df))
    as [| r [| r' rest]] eqn:Hf; try discriminate.
  intros H. injection H as <-.
  assert (Hr : In r (rows df)).
  { apply (proj1 (filter_In (fun r => String.eqb r.1 sample_id) r (rows df))).
    rewrite Hf. left. reflexivity. }
  rewrite Forall_forall in Hrect.
  specialize (Hrect r (proj2 (list_elem_of_In _ _) Hr)).
  clear -Hrect. revert Hrect. generalize (columns df) as cols. generalize (r.2) as vals.
  induction vals as [| v vals IH]; intros [| c cols] Hlen; simpl in *; try discriminate;
    [reflexivity |].
  f_equal. apply IH. injection Hlen as Hlen. exact Hlen.
Qed.

Lemma sample_result_trace (P : Sample -> Prop) (df : DataFrame) (scores : list Q)
    (i : nat) (sample_id : string) :
  (forall sample, df_loc df sample_id = Ok sample -> P sample) ->
  Forall (aggregates_only P) (sample_result gene_info df scores i sample_id).1.
Proof.
  intros HP. unfold sample_result.
  apply mbind_trace_Forall; [apply Forall_nil; exact I |]. intros score _.
  apply mbind_trace_Forall; [apply Forall_nil; exact I |]. intros sample Hloc.
  apply mbind_trace_Forall.
  { apply Forall_cons. split; [| apply Forall_nil; exact I]. apply HP. exact Hloc. }
  intros profile _.
  apply mbind_trace_Forall; [apply Forall_nil; exact I |]. intros msg _.
  apply Forall_nil. exact I.
Qed.

Lemma display_loop_trace (P : Sample -> Prop) (df : DataFrame) (scores : list Q)
    (ids : list string) :
  (forall sample_id sample, df_loc df sample_id = Ok sample -> P sample) ->
  forall i, Forall (aggregates_only P) (display_loop gene_info df scores i ids).1.
Proof.
  intros HP. induction ids as [| sample_id ids IH]; intros i.
  - apply Forall_nil. exact I.
  - change (display_loop gene_info df scores i (sample_id :: ids))
      with (act r <- sample_result gene_info df scores i sample_id;
            act _ <- emit (st_sample_output r);
            display_loop gene_info df scores (S i) ids).
    apply mbind_trace_Forall; [apply sample_result_trace, HP |]. intros r _.
    apply mbind_trace_Forall.
    { apply Forall_cons. split; [exact I | apply Forall_nil; exact I]. }
    intros _ _. apply IH.
Qed.

Lemma batch_loop_trace (P : Sample -> Prop) (df : DataFrame) (scores : list Q)
    (ids : list string) :
  (forall sample_id sample, df_loc df sample_id = Ok sample -> P sample) ->
  forall i, Forall (aggregates_only P) (batch_loop gene_info df scores i ids).1.
Proof.
  intros HP. induction ids as [| sample_id ids IH]; intros i.
  - apply Forall_nil. exact I.
  - change (batch_loop gene_info df scores i (sample_id :: ids))
      with (act r <- sample_result gene_info df scores i sample_id;
            act rs <- batch_loop gene_info df scores (S i) ids;
            mret (r :: rs)).
    apply mbind_trace_Forall; [apply sample_result_trace, HP |]. intros r _.
    apply mbind_trace_Forall; [apply IH |]. intros rs _.
    apply Forall_nil. exact I.
Qed.

Lemma score_samples_trace (P : Sample -> Prop) (df0 : DataFrame) :
  (forall df sample_id sample,
      df_select df0 (TOP_GENES gene_info) = Ok df ->
      df_loc df sample_id = Ok sample -> P sample) ->
  Forall (aggregates_only P)
    (score_samples gene_info scaler_transform model_predict df0).1.
Proof.
  intros HP. unfold score_samples.
  apply mbind_trace_Forall; [apply Forall_nil; exact I |]. intros df Hsel.
  apply mbind_trace_Forall.
  { apply Forall_cons. split; [exact I | apply Forall_nil; exact I]. }
  intros X_scaled _.
  apply mbind_trace_Forall.
  { apply Forall_cons. split; [exact I | apply Forall_nil; exact I]. }
  intros scores _.
  apply mbind_trace_Forall.
  { apply Forall_cons. split; [exact I | apply Forall_nil; exact I]. }
  intros _ _.
  apply mbind_trace_Forall; [apply display_loop_trace; eauto |]. intros _ _.
  apply mbind_trace_Forall; [apply batch_loop_trace; eauto |]. intros all_results _.
  apply Forall_cons. split; [exact I | apply Forall_nil; exact I].
Qed.

Lemma process_upload_trace (P : Sample -> Prop) (df0 : DataFrame) :
  (forall df sample_id sample,
      df_select df0 (TOP_GENES gene_info) = Ok df ->
      df_loc df sample_id = Ok sample -> P sample) ->
  Forall (aggregates_only P) (process_upload gene_info scaler_transform model_predict df0).1.
Proof.
  intros HP. unfold process_upload.
  case_bool_decide as Hmissing.
  - pose proof (score_samples_trace P df0 HP) as Htrace.
    destruct (score_samples gene_info scaler_transform model_predict df0)
      as [trace [u | e]]; simpl in *; [exact Htrace |].
    apply Forall_app. split; [exact Htrace |].
    apply Forall_cons. split; [exact I | apply Forall_nil; exact I].
  - simpl. repeat (apply Forall_cons; split; [exact I |]). apply Forall_nil. exact I.
Qed.

(** C10. Every row the upload branch hands to the aggregator has exactly
    the required genes as its keys, and each of them has an entry in
    [GENE_TO_MECH]: the lookup never falls back to "Non-Specific
    Resistance". *)
Theorem pipeline_rows_in_catalog (df0 : DataFrame) (sample : Sample) :
  In (call_compute_sample_mechanisms sample)
     (process_upload gene_info scaler_transform model_predict df0).1 ->
  map fst sample = TOP_GENES gene_info /\
  (forall g v,
      In (g, v) sample ->
      exists mech,
        GENE_TO_MECH gene_info !! g = Some mech /\ mech_of gene_info g = mech).
Proof.
  intros Hin.
  set (P := fun sample : Sample =>
              map fst sample = TOP_GENES gene_info /\
              (forall g v,
                  In (g, v) sample ->
                  exists mech,
                    GENE_TO_MECH gene_info !! g = Some mech /\
                    mech_of gene_info g = mech)).
  assert (HP : forall df sample_id sample,
             df_select df0 (TOP_GENES gene_info) = Ok df ->
             df_loc df sample_id = Ok sample -> P sample).
  { clear sample Hin. intros df sample_id sample Hsel Hloc.
    destruct (df_select_Ok _ _ _ Hsel) as (Hcols & _ & Hrect).
    rewrite <- Hcols in Hrect.
    pose proof (df_loc_columns df sample_id sample Hrect Hloc) as Hkeys.
    rewrite Hcols in Hkeys. split; [exact Hkeys |].
    intros g v Hgv.
    assert (Hg : In g (TOP_GENES gene_info)).
    { rewrite <- Hkeys. apply in_map_iff. exists (g, v). split; [reflexivity | exact Hgv]. }
    destruct (GENE_TO_MECH_TOP_GENES g Hg) as [mech Hmech].
    exists mech. split; [exact Hmech |]. unfold mech_of. rewrite Hmech. reflexivity. }
  pose proof (process_upload_trace P df0 HP) as Htrace.
  rewrite Forall_forall in Htrace.
  apply (Htrace (call_compute_sample_mechanisms sample)).
  apply list_elem_of_In. exact Hin.
Qed.

(** C6. When a required gene is missing from the table, validation fails on
    the full set of missing genes: [missing_genes] holds every required gene
    that is not a column of the table, and nothing else; the branch reports
    the size of that set and the found count (the page lists up to five of
    its genes), then stops: no call to the scaler or the model is made.  When
    none is missing, the table is projected to the catalog's genes in the
    catalog's order and that projection is what the scaler receives. *)
Theorem missing_genes_stop_processing (df : DataFrame) :
  ((exists g, In g (TOP_GENES gene_info) /\ ~ In g (columns df)) ->
   missing_genes gene_info df <> ∅ /\
   (forall g,
       g ∈ missing_genes gene_info df <->
       In g (TOP_GENES gene_info) /\ ~ In g (columns df)) /\
   exists shown,
     process_upload gene_info scaler_transform model_predict df =
       ([ st_error_missing (size (missing_genes gene_info df));
          st_info_first_missing shown;
          st_write_found (size (found_genes gene_info df));
          st_write_missing (size (missing_genes gene_info df));
          st_download_gene_list (TOP_GENES gene_info) ],
        Stopped) /\
     length shown = Nat.min 5 (size (missing_genes gene_info df)) /\
     NoDup shown /\
     (forall g, In g shown -> In g (TOP_GENES gene_info) /\ ~ In g (columns df)) /\
     (size (found_genes gene_info df) + size (missing_genes gene_info df)
      = size (list_to_set (TOP_GENES gene_info) : gset string))%nat /\
     Forall (fun e => ~ is_scoring_call e)
       (process_upload gene_info scaler_transform model_predict df).1) /\
  ((forall g, In g (TOP_GENES gene_info) -> In g (columns df)) ->
   exists df' rest out,
     df_select df (TOP_GENES gene_info) = Ok df' /\
     columns df' = TOP_GENES gene_info /\
     df_index df' = df_index df /\
     process_upload gene_info scaler_transform model_predict df =
       (call_scaler_transform (df_values df') :: rest, out)).
Proof.
  split.
  - intros (g & Hg & Hng).
    assert (Hne : missing_genes gene_info df <> ∅).
    { intros Hempty. apply Hng. apply (proj1 (missing_genes_empty df) Hempty). exact Hg. }
    assert (Hrun : process_upload gene_info scaler_transform model_predict df =
              ([ st_error_missing (size (missing_genes gene_info df));
                 st_info_first_missing (take 5 (elements (missing_genes gene_info df)));
                 st_write_found (size (found_genes gene_info df));
                 st_write_missing (size (missing_genes gene_info df));
                 st_download_gene_list (TOP_GENES gene_info) ],
               Stopped)).
    { unfold process_upload. case_bool_decide; [contradiction | reflexivity]. }
    split; [exact Hne |].
    split; [intros g'; apply missing_genes_spec |].
    exists (take 5 (elements (missing_genes gene_info df))).
    split; [exact Hrun |]. split; [| split; [| split; [| split]]].
    + rewrite length_take. reflexivity.
    + apply (sublist_NoDup _ (elements (missing_genes gene_info df)));
        [apply NoDup_elements | apply sublist_take].
    + intros g' Hg'. apply missing_genes_spec, elem_of_elements.
      apply list_elem_of_In in Hg'. revert Hg'. apply subseteq_take.
    + unfold found_genes, missing_genes.
      rewrite <- size_union.
      2:{ apply elem_of_disjoint. intros x Hfound Hmissing.
          apply elem_of_intersection in Hfound. apply elem_of_difference in Hmissing.
          tauto. }
      f_equal.
      apply set_eq. intros x.
      rewrite elem_of_union, elem_of_intersection, elem_of_difference.
      destruct (decide (x ∈ (list_to_set (columns df) : gset string))); tauto.
    + rewrite Hrun. simpl.
      repeat (apply Forall_cons; split; [intros []|]). apply Forall_nil. exact I.
  - intros Hall.
    destruct (df_select_succeeds df (TOP_GENES gene_info) Hall) as [df' Hsel].
    destruct (df_select_Ok _ _ _ Hsel) as (Hcols & Hidx & _).
    unfold process_upload.
    rewrite (bool_decide_eq_true_2 _ (proj2 (missing_genes_empty df) Hall)).
    unfold score_samples. rewrite Hsel, mbind_lift_Ok.
    match goal with
    | |- context [mbind (call ?ev ?r) ?k] =>
        destruct (mbind_call_head ev r k) as (rest & out & ->)
    end.
    destruct out as [u | e]; eauto 10.
Qed.

End Pipeline.

(** *** Concrete uploads *)

Lemma pipeline_rows_in_catalog_witness :
  map fst [("g1", 80); ("g2", 20)] = TOP_GENES catalog2 /\
  (forall g v,
      In (g, v) [("g1", 80); ("g2", 20)] ->
      exists mech, GENE_TO_MECH catalog2 !! g = Some mech /\ mech_of catalog2 g = mech).
Proof.
  apply (pipeline_rows_in_catalog catalog2 unit_scaler sum_model full_table).
  vm_compute. right. right. right. left. reflexivity.
Defined.

Lemma missing_genes_stop_processing_witness :
  Forall (fun e => ~ is_scoring_call e)
    (process_upload catalog2 unit_scaler sum_model table_without_g2).1 /\
  exists rest out,
    process_upload catalog2 unit_scaler sum_model full_table =
      (call_scaler_transform [[80; 20]] :: rest, out).
Proof.
  split.
  - destruct (missing_genes_stop_processing catalog2 unit_scaler sum_model table_without_g2)
      as [H _].
    destruct H as (_ & _ & shown & _ & _ & _ & _ & _ & Hcalls); [| exact Hcalls].
    exists "g2". split; [right; left; reflexivity |].
    intros [H | []]. discriminate.
  - destruct (missing_genes_stop_processing catalog2 unit_scaler sum_model full_table)
      as [_ H].
    destruct H as (df' & rest & out & Hsel & _ & _ & Hrun).
    + intros g [<- | [<- | []]]; simpl; auto.
    + injection Hsel as <-. exists rest, out. exact Hrun.
Defined.

(** ** Label normalization *)

Lemma rstrip_idempotent (s : string) : rstrip (rstrip s) = rstrip s.
Proof.
  induction s as [| c s IH]; [reflexivity |].
  simpl. destruct (rstrip s) as [| c' t] eqn:E.
  - destruct (is_space c) eqn:Ec; [reflexivity |].
    simpl. rewrite Ec. reflexivity.
  - change (rstrip (String c (String c' t))) with
      (match rstrip (String c' t) with
       | EmptyString => if is_space c then EmptyString else String c EmptyString
       | String a u => String c (String a u)
       end).
    rewrite IH. reflexivity.
Qed.

Lemma lstrip_no_leading_space (s : string) : no_leading_space (lstrip s).
Proof.
  induction s as [| c s IH]; simpl; [exact I |].
  destruct (is_space c) eqn:Ec; [exact IH | exact Ec].
Qed.

Lemma rstrip_no_leading_space (s : string) :
  no_leading_space s -> no_leading_space (rstrip s).
Proof.
  destruct s as [| c s]; simpl; [auto |]. intros Hc.
  destruct (rstrip s); [rewrite Hc |]; exact Hc.
Qed.

Lemma lstrip_fixed (s : string) : no_leading_space s -> lstrip s = s.
Proof. destruct s as [| c s]; simpl; [auto |]. intros ->. reflexivity. Qed.

Lemma strip_idempotent (s : string) : strip (strip s) = strip s.
Proof.
  unfold strip.
  rewrite (lstrip_fixed (rstrip (lstrip s))).
  - apply rstrip_idempotent.
  - apply rstrip_no_leading_space, lstrip_no_leading_space.
Qed.

Lemma final_cleanup_canonical :
  final_cleanup "Non-Specific Resistance" = "Non-Specific Resistance".
Proof. reflexivity. Qed.

(** X1. Normalizing a label twice gives what normalizing it once gives. *)
Theorem final_cleanup_idempotent (mechanism : string) :
  final_cleanup (final_cleanup mechanism) = final_cleanup mechanism.
Proof.
  unfold final_cleanup at 2 3.
  destruct (existsb (fun word => contains word (lower (strip mechanism))) cleanup_words)
    eqn:E.
  - apply final_cleanup_canonical.
  - unfold final_cleanup. rewrite strip_idempotent, E. reflexivity.
Qed.

Lemma dict_get_In {V : Type} (d : dict V) (k : string) (v : V) :
  dict_get d k = Some v -> In (k, v) d.
Proof.
  induction d as [| [k' v'] d IH]; simpl; [discriminate |].
  destruct (String.eqb k' k) eqn:E.
  - apply String.eqb_eq in E. subst k'. intros H. injection H as ->. left. reflexivity.
  - intros H. right. apply IH. exact H.
Qed.

Lemma replace_dict_entries :
  List.Forall (fun kv => final_cleanup kv.2 = final_cleanup kv.1) replace_dict.
Proof. unfold replace_dict. repeat (apply List.Forall_cons; [reflexivity |]). apply List.Forall_nil. Qed.

Lemma final_cleanup_series_replace (mechanism : string) :
  final_cleanup (series_replace replace_dict mechanism) = final_cleanup mechanism.
Proof.
  unfold series_replace.
  destruct (dict_get replace_dict mechanism) as [replacement |] eqn:E; [| reflexivity].
  apply dict_get_In in E.
  apply (proj1 (List.Forall_forall _ _) replace_dict_entries (mechanism, replacement) E).
Qed.

(** X2. The exact replacement table changes nothing in the outcome of the
    load: every label it rewrites is one the word test of [final_cleanup]
    sends to the canonical label anyway, so the two passes together give
    what [final_cleanup] alone gives, on every row of the catalog. *)
Theorem replace_dict_subsumed (raw : list (string * string)) :
  normalize_gene_info raw = map (fun gm => (gm.1, final_cleanup gm.2)) raw.
Proof.
  unfold normalize_gene_info. apply map_ext. intros [g mechanism]. simpl.
  rewrite final_cleanup_series_replace. reflexivity.
Qed.

Lemma existsb_words_false (s : string) :
  existsb (fun word => contains word s) cleanup_words = false ->
  contains "non-specific" s = false.
Proof.
  unfold cleanup_words. simpl. intros H.
  repeat (apply orb_false_elim in H; destruct H as [? H]).
  assumption.
Qed.

(** After normalization the canonical label is the only one on which the
    interpreter's "non-specific" test succeeds. *)
Lemma normalized_non_specific_iff (mechanism : string) :
  contains "non-specific" (lower (final_cleanup mechanism)) = true <->
  final_cleanup mechanism = "Non-Specific Resistance".
Proof.
  unfold final_cleanup.
  destruct (existsb (fun word => contains word (lower (strip mechanism))) cleanup_words)
    eqn:E.
  - split; reflexivity.
  - apply existsb_words_false in E. split.
    + rewrite E. discriminate.
    + intros H. rewrite H in E. discriminate E.
Qed.

(** X3. On a profile whose labels went through the normalization of the
    load, [interpret] gives the non-specific message exactly when the
    dominant mechanism is the canonical label with a proportion of at least
    0.30. *)
Theorem interpret_non_specific_normalized (mech_profile : dict Q) :
  mech_profile <> [] ->
  (forall k, In k (dict_keys mech_profile) -> exists raw, k = final_cleanup raw) ->
  exists dominant p,
    first_max (dict_get mech_profile) (dict_keys mech_profile) dominant p /\
    (interpret mech_profile = Ok msg_non_specific <->
     3 # 10 <= p /\ dominant = "Non-Specific Resistance").
Proof.
  intros Hne Hnorm.
  destruct (interpret_nonempty mech_profile Hne) as (d & p & Hfm & Hrun).
  exists d, p. split; [exact Hfm |].
  destruct (Hnorm d) as [raw ->].
  { destruct Hfm as [Hp _]. apply (dict_get_Some_keys _ _ _ Hp). }
  rewrite Hrun. unfold rule_chain.
  pose proof threshold_dominant as H03.
  pose proof (normalized_non_specific_iff raw) as Hiff.
  destruct (Qltb p 0.3) eqn:Hp.
  - apply Qltb_lt in Hp. split; [discriminate |]. intros [Hge _]. exfalso. lra.
  - apply Qltb_ge in Hp.
    destruct (contains "non-specific" (lower (final_cleanup raw))) eqn:Hns.
    + split; [| reflexivity]. intros _. split; [lra | apply Hiff; reflexivity].
    + assert (Hne' : final_cleanup raw <> "Non-Specific Resistance").
      { intros H. apply Hiff in H. discriminate H. }
      split; [| intros [_ H]; contradiction].
      destruct (beta_lactamase_test (final_cleanup raw)); [discriminate |].
      destruct (contains "efflux" (lower (final_cleanup raw))); discriminate.
Qed.

Lemma interpret_non_specific_normalized_witness :
  exists dominant p,
    first_max (dict_get [(final_cleanup "Other / Unclassified", 1)])
      (dict_keys [(final_cleanup "Other / Unclassified", 1)]) dominant p /\
    (interpret [(final_cleanup "Other / Unclassified", 1)] = Ok msg_non_specific <->
     3 # 10 <= p /\ dominant = "Non-Specific Resistance").
Proof.
  apply (interpret_non_specific_normalized [(final_cleanup "Other / Unclassified", 1)]).
  - discriminate.
  - intros k [<- | []]. exists "Other / Unclassified". reflexivity.
Defined.

(** ** The catalog dictionary *)

Lemma fold_insert_other (l : list (string * string)) :
  forall (m : gmap string string) (g : string),
    ~ In g (map fst l) ->
    fold_left (fun m gm => <[gm.1 := gm.2]> m) l m !! g = m !! g.
Proof.
  induction l as [| [g0 m0] l IH]; intros m g Hn; simpl; [reflexivity |].
  rewrite IH.
  - apply lookup_insert_ne. intros ->. apply Hn. left. reflexivity.
  - intros H. apply Hn. right. exact H.
Qed.

(** X4. When a gene has several rows in the catalog, its last row decides
    its mechanism. *)
Theorem GENE_TO_MECH_last_row (before after : list (string * string)) (g mech : string) :
  ~ In g (map fst after) ->
  GENE_TO_MECH (before ++ (g, mech) :: after) !! g = Some mech /\
  mech_of (before ++ (g, mech) :: after) g = mech.
Proof.
  intros Hlast.
  assert (H : GENE_TO_MECH (before ++ (g, mech) :: after) !! g = Some mech).
  { unfold GENE_TO_MECH. rewrite fold_left_app. simpl.
    rewrite fold_insert_other by exact Hlast.
    apply lookup_insert_eq. }
  split; [exact H |]. unfold mech_of. rewrite H. reflexivity.
Qed.

Lemma GENE_TO_MECH_last_row_witness :
  mech_of [("g1", "Efflux"); ("g1", "β-lactamase"); ("g2", "Efflux")] "g1" = "β-lactamase".
Proof.
  apply (GENE_TO_MECH_last_row [("g1", "Efflux")] [("g2", "Efflux")] "g1" "β-lactamase").
  intros [H | []]. discriminate.
Defined.

(** ** Colours and the summary metric *)

(** X5. The CSS class shown with a score tells its band: "risk-low" below
    3,000,000, "risk-moderate" from there up to 5,000,000, "risk-high" from
    5,000,000 on. *)
Theorem get_risk_color_band (s : Q) :
  (get_risk_color (risk_category s) = "risk-low" <-> s < 3000000) /\
  (get_risk_color (risk_category s) = "risk-moderate" <-> 3000000 <= s /\ s < 5000000) /\
  (get_risk_color (risk_category s) = "risk-high" <-> 5000000 <= s).
Proof.
  rewrite <- risk_category_Low, <- risk_category_Moderate, <- risk_category_High.
  destruct (risk_category s); simpl; repeat split; intros H;
    first [reflexivity | discriminate].
Qed.

Lemma high_risk_cons (s : Q) (scores : list Q) :
  high_risk (s :: scores) =
  match risk_category s with
  | High => S (high_risk scores)
  | _ => high_risk scores
  end.
Proof.
  unfold high_risk. simpl List.filter.
  assert (Hshift : forall (l : list nat) (a : nat),
             fold_left Nat.add l (S a) = S (fold_left Nat.add l a)).
  { induction l as [| x l IH]; intros a; simpl; [reflexivity |]. apply (IH (a + x)%nat). }
  destruct (risk_category s); try reflexivity.
  simpl. apply (Hshift _ 0%nat).
Qed.

(** X6. The "High Risk Samples" metric never exceeds the number of samples;
    it equals that number exactly when every score is at least 5,000,000 and
    is zero exactly when every score is below 5,000,000. *)
Theorem high_risk_count (scores : list Q) :
  (high_risk scores <= length scores)%nat /\
  (high_risk scores = length scores <-> forall s, In s scores -> 5000000 <= s) /\
  (high_risk scores = 0%nat <-> forall s, In s scores -> s < 5000000).
Proof.
  induction scores as [| s scores (IHle & IHall & IHnone)].
  - split; [reflexivity |]. split; split; intros; first [reflexivity | contradiction].
  - rewrite high_risk_cons.
    pose proof (risk_category_High s) as HH.
    destruct (risk_category s) eqn:E; simpl length.
    + assert (Hs : s < 5000000).
      { apply risk_category_Low in E. lra. }
      split; [lia |]. split; split.
      * intros H. exfalso. lia.
      * intros H. exfalso. specialize (H s (or_introl eq_refl)). lra.
      * intros H x [<- | Hx]; [exact Hs | apply IHnone; assumption].
      * intros H. apply IHnone. intros x Hx. apply H. right. exact Hx.
    + assert (Hs : s < 5000000).
      { apply risk_category_Moderate in E. lra. }
      split; [lia |]. split; split.
      * intros H. exfalso. lia.
      * intros H. exfalso. specialize (H s (or_introl eq_refl)). lra.
      * intros H x [<- | Hx]; [exact Hs | apply IHnone; assumption].
      * intros H. apply IHnone. intros x Hx. apply H. right. exact Hx.
    + assert (Hs : 5000000 <= s) by (apply HH; reflexivity).
      split; [lia |]. split; split.
      * intros H x [<- | Hx]; [exact Hs | apply IHall; [lia | exact Hx]].
      * intros H. f_equal. apply IHall. intros x Hx. apply H. right. exact Hx.
      * discriminate.
      * intros H. exfalso. specialize (H s (or_introl eq_refl)). lra.
Qed.

(** ** More on the upload branch *)

Lemma lookup_map {A B : Type} (f : A -> B) (l : list A) (j : nat) :
  map f l !! j = option_map f (l !! j).
Proof.
  revert j. induction l as [| x l IH]; intros [| j]; simpl; try reflexivity. apply IH.
Qed.

Lemma combine_get_position (g : string) (cols : list string) :
  forall (vals : list Q) (i : nat),
    column_position g cols = Some i ->
    length vals = length cols ->
    dict_get (combine cols vals) g = Some (nth i vals 0).
Proof.
  induction cols as [| c cols IH]; intros vals i Hpos Hlen; simpl in Hpos; [discriminate |].
  destruct vals as [| v vals]; [discriminate |]. simpl.
  destruct (String.eqb c g).
  - injection Hpos as <-. reflexivity.
  - destruct (column_position g cols) as [i' |] eqn:E; [| discriminate].
    injection Hpos as <-. simpl. apply IH; [reflexivity |].
    injection Hlen as Hlen. exact Hlen.
Qed.

Lemma select_row_get (cols : list string) (vals : list Q) (g : string) :
  length vals = length cols ->
  forall (genes : list string) (positions : list nat),
    Forall2 (fun g i => column_position g cols = Some i) genes positions ->
    In g genes ->
    dict_get (combine genes (map (fun i => nth i vals 0) positions)) g =
    dict_get (combine cols vals) g.
Proof.
  intros Hlen genes positions HF.
  induction HF as [| g0 i0 genes positions Hpos _ IH]; intros Hin; [contradiction |].
  simpl. destruct (String.eqb g0 g) eqn:E.
  - apply String.eqb_eq in E. subst g0.
    symmetry. apply combine_get_position; assumption.
  - destruct Hin as [-> | Hin]; [rewrite String.eqb_refl in E; discriminate |].
    apply IH. exact Hin.
Qed.

(** X9. Projecting a table on a list of genes keeps the rows and their
    Sample_IDs in place, and in each row every listed gene keeps the
    abundance it had in the uploaded table, wherever its column stood and
    whatever other columns there were. *)
Theorem df_select_keeps_abundances (df df' : DataFrame) (genes : list string)
    (j : nat) (sample_id : string) (vals : list Q) :
  df_select df genes = Ok df' ->
  rows df !! j = Some (sample_id, vals) ->
  length vals = length (columns df) ->
  exists vals',
    rows df' !! j = Some (sample_id, vals') /\
    length vals' = length genes /\
    (forall g, In g genes ->
               dict_get (combine genes vals') g = dict_get (combine (columns df) vals) g).
Proof.
  unfold df_select.
  destruct (mapM (fun g => column_position g (columns df)) genes)
    as [positions |] eqn:Hpos; [| discriminate].
  intros H Hrow Hlen. injection H as <-. simpl.
  exists (map (fun i => nth i vals 0) positions).
  split; [| split].
  - rewrite lookup_map, Hrow. reflexivity.
  - rewrite length_map. symmetry. apply (length_mapM _ _ _ Hpos).
  - intros g Hg. apply select_row_get; [exact Hlen | | exact Hg].
    apply mapM_Some_1. exact Hpos.
Qed.

Lemma df_select_keeps_abundances_witness :
  exists vals',
    rows {| columns := ["g1"; "g2"]; rows := [("s1", [80; 20])] |} !! 0%nat
      = Some ("s1", vals') /\
    length vals' = length ["g1"; "g2"] /\
    (forall g, In g ["g1"; "g2"] ->
               dict_get (combine ["g1"; "g2"] vals') g =
               dict_get (combine (columns full_table) [20; 7; 80]) g).
Proof.
  apply (df_select_keeps_abundances full_table
           {| columns := ["g1"; "g2"]; rows := [("s1", [80; 20])] |}
           ["g1"; "g2"] 0 "s1" [20; 7; 80]); reflexivity.
Defined.


Lemma filter_label_absent (sample_id : string) (rs : list (string * list Q)) :
  ~ In sample_id (map fst rs) ->
  List.filter (fun r => String.eqb r.1 sample_id) rs = [].
Proof.
  induction rs as [| r rs IH]; intros Hn; simpl; [reflexivity |].
  destruct (String.eqb r.1 sample_id) eqn:E.
  - exfalso. apply Hn. left. apply String.eqb_eq. exact E.
  - apply IH. intros H. apply Hn. right. exact H.
Qed.




Section PipelineRuns.

Variable gene_info : list (string * string).
Variable scaler_transform : list (list Q) -> result (list (list Q)).
Variable model_predict : list (list Q) -> result (list Q).




Lemma df_select_Ok_present (df df' : DataFrame) (genes : list string) :
  df_select df genes = Ok df' -> forall g, In g genes -> In g (columns df).
Proof.
  unfold df_select.
  destruct (mapM (fun g => column_position g (columns df)) genes)
    as [positions |] eqn:Hpos; [| discriminate].
  intros _. apply mapM_Some_1 in Hpos.
  induction Hpos as [| g0 i0 genes positions Hg0 _ IH]; intros g Hg; [contradiction |].
  destruct Hg as [<- | Hg]; [apply (column_position_In _ _ _ Hg0) | apply IH; exact Hg].
Qed.


Lemma is_raise_mbind {A B : Type} (c : M A) (k : A -> M B) :
  is_raise c.2 \/ (forall a, c.2 = Ok a -> is_raise (k a).2) ->
  is_raise (mbind c k).2.
Proof.
  destruct c as [trace [a | e]]; simpl; [| intros _; exact I].
  intros [[] | H]. specialize (H a eq_refl). destruct (k a). exact H.
Qed.

Lemma display_loop_raises (df : DataFrame) (scores : list Q) (sample_id : string)
    (ids : list string) :
  is_raise (df_loc df sample_id) ->
  In sample_id ids ->
  forall i, is_raise (display_loop gene_info df scores i ids).2.
Proof.
  intros Hloc. induction ids as [| id0 ids IH]; intros Hin i; [contradiction |].
  change (display_loop gene_info df scores i (id0 :: ids))
    with (act r <- sample_result gene_info df scores i id0;
          act _ <- emit (st_sample_output r);
          display_loop gene_info df scores (S i) ids).
  apply is_raise_mbind.
  destruct Hin as [-> | Hin].
  - left. unfold sample_result.
    apply is_raise_mbind. right. intros score _.
    apply is_raise_mbind. left. exact Hloc.
  - right. intros r _. apply is_raise_mbind. right. intros _ _. apply IH. exact Hin.
Qed.

Lemma filter_label_map (f : list Q -> list Q) (sample_id : string)
    (rs : list (string * list Q)) :
  List.filter (fun r => String.eqb r.1 sample_id) (map (fun r => (r.1, f r.2)) rs) =
  map (fun r => (r.1, f r.2)) (List.filter (fun r => String.eqb r.1 sample_id) rs).
Proof.
  induction rs as [| r rs IH]; simpl; [reflexivity |].
  destruct (String.eqb r.1 sample_id); simpl; rewrite IH; reflexivity.
Qed.

Lemma filter_label_In (sample_id : string) (rs : list (string * list Q)) :
  List.filter (fun r => String.eqb r.1 sample_id) rs <> [] -> In sample_id (map fst rs).
Proof.
  intros Hne. apply Decidable.not_not; [| intros Hn; apply Hne, filter_label_absent, Hn].
  destruct (in_dec string_dec sample_id (map fst rs)); [left | right]; assumption.
Qed.

(** X11. A Sample_ID that labels two or more rows keeps the run from
    completing: it stops on missing genes or ends in the error handler, and
    no run with such a table reaches its end. *)
Theorem duplicate_sample_id_not_completed (df : DataFrame) (sample_id : string) :
  (2 <= length (List.filter (fun r => String.eqb r.1 sample_id) (rows df)))%nat ->
  (process_upload gene_info scaler_transform model_predict df).2 <> Completed.
Proof.
  intros Hdup. unfold process_upload.
  case_bool_decide as Hmissing; [| discriminate].
  assert (Hraise : is_raise (score_samples gene_info scaler_transform model_predict df).2).
  { unfold score_samples.
    apply is_raise_mbind. right. intros df' Hsel. simpl in Hsel.
    apply is_raise_mbind. right. intros X_scaled _.
    apply is_raise_mbind. right. intros scores _.
    apply is_raise_mbind. right. intros _ _.
    apply is_raise_mbind. left.
    assert (Hrows : exists f, rows df' = map (fun r => (r.1, f r.2)) (rows df)).
    { unfold df_select in Hsel.
      destruct (mapM (fun g => column_position g (columns df)) (TOP_GENES gene_info))
        as [positions |]; [| discriminate].
      injection Hsel as <-. simpl. eexists (fun vals => map (fun i => nth i vals 0) positions).
      reflexivity. }
    destruct Hrows as [f Hrows].
    assert (Hlen : (2 <= length (List.filter (fun r => String.eqb r.1 sample_id) (rows df')))%nat).
    { rewrite Hrows, filter_label_map, length_map. exact Hdup. }
    apply (display_loop_raises df' scores sample_id).
    - unfold df_loc.
      destruct (List.filter (fun r => String.eqb r.1 sample_id) (rows df'))
        as [| r1 [| r2 rest]]; simpl in Hlen; [lia | lia | exact I].
    - apply filter_label_In. intros Hnil. rewrite Hnil in Hlen. simpl in Hlen. lia. }
  destruct (score_samples gene_info scaler_transform model_predict df) as [trace [u | e]];
    [destruct Hraise | discriminate].
Qed.

Lemma mbind_raise_trace {A B : Type} (P : event -> Prop) (c : M A) (k : A -> M B) :
  Forall P c.1 ->
  (forall a, c.2 = Ok a -> is_raise (k a).2 -> Forall P (k a).1) ->
  is_raise (mbind c k).2 -> Forall P (mbind c k).1.
Proof.
  destruct c as [trace [a | e]]; simpl; intros Hc Hk; [| intros _; exact Hc].
  specialize (Hk a eq_refl). destruct (k a) as [trace' r]. simpl in *.
  intros Hr. apply Forall_app. split; [exact Hc | apply Hk, Hr].
Qed.

Lemma loops_no_export (df : DataFrame) (scores : list Q) (ids : list string) (i : nat) :
  Forall no_export (display_loop gene_info df scores i ids).1 /\
  Forall no_export (batch_loop gene_info df scores i ids).1.
Proof.
  revert i. induction ids as [| sample_id ids IH]; intros i.
  - split; apply Forall_nil; exact I.
  - assert (Hres : Forall no_export (sample_result gene_info df scores i sample_id).1).
    { unfold sample_result.
      apply mbind_trace_Forall; [apply Forall_nil; exact I |]. intros score _.
      apply mbind_trace_Forall; [apply Forall_nil; exact I |]. intros sample _.
      apply mbind_trace_Forall.
      { apply Forall_cons. split; [exact I | apply Forall_nil; exact I]. }
      intros profile _.
      apply mbind_trace_Forall; [apply Forall_nil; exact I |]. intros msg _.
      apply Forall_nil. exact I. }
    destruct (IH (S i)) as [IHd IHb].
    split.
    + change (display_loop gene_info df scores i (sample_id :: ids))
        with (act r <- sample_result gene_info df scores i sample_id;
              act _ <- emit (st_sample_output r);
              display_loop gene_info df scores (S i) ids).
      apply mbind_trace_Forall; [exact Hres |]. intros r _.
      apply mbind_trace_Forall; [| intros _ _; exact IHd].
      apply Forall_cons. split; [exact I | apply Forall_nil; exact I].
    + change (batch_loop gene_info df scores i (sample_id :: ids))
        with (act r <- sample_result gene_info df scores i sample_id;
              act rs <- batch_loop gene_info df scores (S i) ids;
              mret (r :: rs)).
      apply mbind_trace_Forall; [exact Hres |]. intros r _.
      apply mbind_trace_Forall; [exact IHb |]. intros rs _.
      apply Forall_nil. exact I.
Qed.

(** X12. The batch export is produced only by a run that completes: a run
    that stops on missing genes or ends in the error handler exports
    nothing, not even the records of the samples it had already shown. *)
Theorem export_only_when_completed (df : DataFrame) (all_results : list SampleResult) :
  (process_upload gene_info scaler_transform model_predict df).2 <> Completed ->
  ~ In (st_batch_export all_results)
       (process_upload gene_info scaler_transform model_predict df).1.
Proof.
  intros Hout Hin.
  assert (Htrace : Forall no_export
                     (process_upload gene_info scaler_transform model_predict df).1).
  { revert Hout. unfold process_upload.
    case_bool_decide as Hmissing.
    - assert (Hs : is_raise (score_samples gene_info scaler_transform model_predict df).2 ->
                   Forall no_export
                     (score_samples gene_info scaler_transform model_predict df).1).
      { unfold score_samples.
        apply mbind_raise_trace; [apply Forall_nil; exact I |]. intros df' _.
        apply mbind_raise_trace.
        { apply Forall_cons. split; [exact I | apply Forall_nil; exact I]. }
        intros X_scaled _.
        apply mbind_raise_trace.
        { apply Forall_cons. split; [exact I | apply Forall_nil; exact I]. }
        intros scores _.
        apply mbind_raise_trace.
        { apply Forall_cons. split; [exact I | apply Forall_nil; exact I]. }
        intros _ _.
        apply mbind_raise_trace; [apply loops_no_export |]. intros _ _.
        apply mbind_raise_trace; [apply loops_no_export |]. intros rs _.
        intros []. }
      destruct (score_samples gene_info scaler_transform model_predict df)
        as [trace [u | e]]; simpl in *.
      + intros H. exfalso. apply H. reflexivity.
      + intros _. apply Forall_app. split; [apply Hs; exact I |].
        apply Forall_cons. split; [exact I | apply Forall_nil; exact I].
    - intros _. simpl. repeat (apply Forall_cons; split; [exact I |]).
      apply Forall_nil. exact I. }
  rewrite Forall_forall in Htrace.
  apply (Htrace (st_batch_export all_results)).
  apply list_elem_of_In. exact Hin.
Qed.

(** X13. When the scaler raises, the model is never called and no sample is
    aggregated: the run consists of the scaler call and the error report.
    When the model raises, no sample is aggregated either. *)
Theorem scoring_failure_stops_the_run (df df' : DataFrame) (e : exn) :
  df_select df (TOP_GENES gene_info) = Ok df' ->
  (scaler_transform (df_values df') = Raise e ->
   process_upload gene_info scaler_transform model_predict df =
     ([call_scaler_transform (df_values df'); st_error_processing e], Failed)) /\
  (forall X_scaled,
      scaler_transform (df_values df') = Ok X_scaled ->
      model_predict X_scaled = Raise e ->
      process_upload gene_info scaler_transform model_predict df =
        ([call_scaler_transform (df_values df'); call_model_predict X_scaled;
          st_error_processing e], Failed)).
Proof.
  intros Hsel.
  assert (Hpresent : bool_decide (missing_genes gene_info df = ∅) = true).
  { apply bool_decide_eq_true_2, missing_genes_empty, (df_select_Ok_present _ _ _ Hsel). }
  split.
  - intros Hscaler. unfold process_upload. rewrite Hpresent.
    unfold score_samples. rewrite Hsel, mbind_lift_Ok.
    unfold call. rewrite Hscaler. reflexivity.
  - intros X_scaled Hscaler Hmodel. unfold process_upload. rewrite Hpresent.
    unfold score_samples. rewrite Hsel, mbind_lift_Ok.
    unfold call. rewrite Hscaler. unfold mbind at 1. rewrite Hmodel. reflexivity.
Qed.

End PipelineRuns.


Lemma duplicate_sample_id_not_completed_witness :
  (process_upload catalog2 unit_scaler sum_model table_with_duplicate_id).2 <> Completed.
Proof.
  apply (duplicate_sample_id_not_completed catalog2 unit_scaler sum_model
           table_with_duplicate_id "s1").
  simpl. lia.
Defined.

Lemma export_only_when_completed_witness :
  ~ In (st_batch_export [])
       (process_upload catalog2 unit_scaler sum_model table_without_g2).1.
Proof.
  apply (export_only_when_completed catalog2 unit_scaler sum_model table_without_g2 []).
  vm_compute. discriminate.
Defined.

Lemma scoring_failure_stops_the_run_witness :
  process_upload catalog2 failing_scaler sum_model full_table =
    ([call_scaler_transform [[80; 20]]; st_error_processing ValueError], Failed).
Proof.
  destruct (scoring_failure_stops_the_run catalog2 failing_scaler sum_model full_table
              {| columns := ["g1"; "g2"]; rows := [("s1", [80; 20])] |} ValueError)
    as [H _]; [reflexivity |].
  apply H. reflexivity.
Defined.

